(** * Distance variation function (DVF) filter: saf_utility_dvf.c

    A shallow embedding of [framework/modules/saf_utilities/saf_utility_dvf.c]
    and the properties its specification states about it.

    Numbers.  The C types [float] and [double] are both read as the real
    numbers [R]: every arithmetic operation is the exact one, and the
    conversions between the two types are the identity (they are kept as
    named functions so that the definitions follow the source line by line).
    [powf] and [tanf] are the real power and tangent.  A division by zero
    is left as the division of [R] leaves it; no statement below rests on
    its value.  The C type [int] is
    [Z] restricted to 32 bits; leaving that range is undefined behaviour in C
    and has no result here.

    Memory.  A table read outside the 19 entries of a table is undefined
    behaviour in C; here it has no result ([None]), and so has every function
    that performs one.

    Rounding.  The index arithmetic, the azimuth remapper and the
    coefficient synthesizer are embedded a second time over IEEE binary32
    ([Binary32], on [SpecFloat]) and evaluated on the inputs that decide the
    statements about them.  Where rounding decides a strict bound, the
    statement over [R] carries a margin and the binary32 evaluation shows
    what happens without it. *)

From Stdlib Require Import Reals Lra Lia ZArith List Bool.
From Stdlib Require Import Floats.SpecFloat.
Import ListNotations.

Local Open Scope R_scope.

Module DVF.

(** ** A small error monad for undefined behaviour *)

Definition bind {A B : Type} (m : option A) (k : A -> option B) : option B :=
  match m with
  | Some a => k a
  | None => None
  end.

Declare Scope ub_scope.
Delimit Scope ub_scope with ub.
Notation "x <- m ;; k" := (bind m (fun x => k))
  (at level 61, m at next level, right associativity) : ub_scope.
Notation "' p <- m ;; k" := (bind m (fun x => let p := x in k))
  (at level 61, p pattern, m at next level, right associativity) : ub_scope.
Local Open Scope ub_scope.

(** ** Machine integers and conversions *)

Definition INT_MIN : Z := (- 2 ^ 31)%Z.
Definition INT_MAX : Z := (2 ^ 31 - 1)%Z.

Definition in_int (z : Z) : bool := ((INT_MIN <=? z) && (z <=? INT_MAX))%Z.

(** Signed addition and subtraction on [int]: overflow is undefined. *)
Definition int_add (a b : Z) : option Z :=
  if in_int (a + b) then Some (a + b)%Z else None.

Definition int_sub (a b : Z) : option Z :=
  if in_int (a - b) then Some (a - b)%Z else None.

(** Rounding toward zero, the value of a C cast [(int)x]. *)
Definition Rtrunc (x : R) : Z :=
  if Rle_dec 0 x then Int_part x else (- Int_part (- x))%Z.

(** [(int)x]: undefined when the truncated value does not fit an [int]. *)
Definition int_of_float (x : R) : option Z :=
  let z := Rtrunc x in if in_int z then Some z else None.

(** [(float)i], the implicit conversion of an [int] operand. *)
Definition float_of_int (i : Z) : R := IZR i.

(** [(double)x] and [(float)x] between the two floating types. *)
Definition double_of_float (x : R) : R := x.
Definition float_of_double (x : R) : R := x.

(** ** Table 1: coefficients for Eqs. (8), (13) and (14) *)

Definition p11 : list R := [ 12.97; 13.19; 12.13; 11.19; 9.91; 8.328; 6.493; 4.455; 2.274; 0.018; -2.24; -4.43; -6.49; -8.34; -9.93; -11.3; -12.2; -12.8; -13 ].
Definition p21 : list R := [ -9.69; 234.2; -11.2; -9.03; -7.87; -7.42; -7.31; -7.28; -7.29; -7.48; -8.04; -9.23; -11.6; -17.4; -48.4; 9.149; 1.905; -0.75; -1.32 ].
Definition q11 : list R := [ -1.14; 18.48; -1.25; -1.02; -0.83; -0.67; -0.5; -0.32; -0.11; -0.13; 0.395; 0.699; 1.084; 1.757; 4.764; -0.64; 0.109; 0.386; 0.45 ].
Definition q21 : list R := [ 0.219; -8.5; 0.346; 0.336; 0.379; 0.421; 0.423; 0.382; 0.314; 0.24; 0.177; 0.132; 0.113; 0.142; 0.462; -0.14; -0.08; -0.06; -0.05 ].
Definition p12 : list R := [ -4.39; -4.31; -4.18; -4.01; -3.87; -4.1; -3.87; -5.02; -6.72; -8.69; -11.2; -12.1; -11.1; -11.1; -9.72; -8.42; -7.44; -6.78; -6.58 ].
Definition p22 : list R := [ 2.123; -2.78; 4.224; 3.039; -0.57; -34.7; 3.271; 0.023; -8.96; -58.4; 11.47; 8.716; 21.8; 1.91; -0.04; -0.66; 0.395; 2.662; 3.387 ].
Definition q12 : list R := [ -0.55; 0.59; -1.01; -0.56; 0.665; 11.39; -1.57; -0.87; 0.37; 5.446; -1.13; -0.63; -2.01; 0.15; 0.243; 0.147; -0.18; -0.67; -0.84 ].
Definition q22 : list R := [ -0.06; -0.17; -0.02; -0.32; -1.13; -8.3; 0.637; 0.325; -0.08; -1.19; 0.103; -0.12; 0.098; -0.4; -0.41; -0.34; -0.18; 0.05; 0.131 ].
Definition p13 : list R := [ 0.457; 0.455; -0.87; 0.465; 0.494; 0.549; 0.663; 0.691; 3.507; -27.4; 6.371; 7.032; 7.092; 7.463; 7.453; 8.101; 8.702; 8.925; 9.317 ].
Definition p23 : list R := [ -0.67; 0.142; 3404; -0.91; -0.67; -1.21; -1.76; 4.655; 55.09; 10336; 1.735; 40.88; 23.86; 102.8; -6.14; -18.1; -9.05; -9.03; -6.89 ].
Definition p33 : list R := [ 0.174; -0.11; -1699; 0.437; 0.658; 2.02; 6.815; 0.614; 589.3; 16818; -9.39; -44.1; -23.6; -92.3; -1.81; 10.54; 0.532; 0.285; -2.08 ].
Definition q13 : list R := [ -1.75; -0.01; 7354; -2.18; -1.2; -1.59; -1.23; -0.89; 29.23; 1945; -0.06; 5.635; 3.308; 13.88; -0.88; -2.23; -0.96; -0.9; -0.57 ].
Definition q23 : list R := [ 0.699; -0.35; -5350; 1.188; 0.256; 0.816; 1.166; 0.76; 59.51; 1707; -1.12; -6.18; -3.39; -12.7; -0.19; 1.295; -0.02; -0.08; -0.4 ].

(** [t[i]]: a read of a table; outside the table it is undefined. *)
Definition tbl (t : list R) (i : Z) : option R :=
  if (i <? 0)%Z then None else nth_error t (Z.to_nat i).

(** [sizeof(float)], in bytes. *)
Definition sizeof_float : Z := 4.

(** [sizeof(t)] for an array [t] of [float]: its size in bytes. *)
Definition sizeof_table (t : list R) : Z := (Z.of_nat (length t) * sizeof_float)%Z.

(** [static const int numAz_table = sizeof(q23);] *)
Definition numAz_table : Z := sizeof_table q23.

(** Modelled from the spec: the macro [SAF_PI] of the header
    saf_utilities.h, which is not part of the sources at hand; the
    specification writes it as the number pi. *)
Definition SAF_PI : R := PI.

Definition a_0 : R := 0.0875.
Definition a_head : R := 0.09096.
Definition headDim : R := SAF_PI * (a_0 / a_head).
Definition sosDiv2PiA : R := 343 / (2 * SAF_PI * a_head).

(** ** The functions *)

Definition interpolate_lin (a b ifac : R) : R := a + (b - a) * ifac.

(** [powf(10.f, dB / 20.f)] *)
Definition db2mag (dB : R) : R := Rpower 10 (dB / 20).

Definition calcHighShelfParams (i : Z) (rhoIn : R) : option (R * R * R) :=
  let rho := double_of_float rhoIn in
  let rhoSq := rho ^ 2 in
  p11_i <- tbl p11 i ;; p21_i <- tbl p21 i ;;
  q11_i <- tbl q11 i ;; q21_i <- tbl q21 i ;;
  let g0 := float_of_double ((p11_i * rho + p21_i) / (rhoSq + q11_i * rho + q21_i)) in
  p12_i <- tbl p12 i ;; p22_i <- tbl p22 i ;;
  q12_i <- tbl q12 i ;; q22_i <- tbl q22 i ;;
  let gInf := float_of_double ((p12_i * rho + p22_i) / (rhoSq + q12_i * rho + q22_i)) in
  p13_i <- tbl p13 i ;; p23_i <- tbl p23 i ;; p33_i <- tbl p33 i ;;
  q13_i <- tbl q13 i ;; q23_i <- tbl q23 i ;;
  let fc_tmp := (p13_i * rhoSq + p23_i * rho + p33_i) / (rhoSq + q13_i * rho + q23_i) in
  let fc := float_of_double fc_tmp * sosDiv2PiA in
  Some (g0, gInf, fc).

(** The two table indices of [interpHighShelfParams]: the statements from
    [theta_idx_lower = (int)thetaDiv10] to the end of the [if]. *)
Definition theta_idx (thetaDiv10 : R) : option (Z * Z) :=
  theta_idx_lower <- int_of_float thetaDiv10 ;;
  theta_idx_upper <- int_add theta_idx_lower 1 ;;
  if (theta_idx_upper =? numAz_table)%Z then
    let theta_idx_upper := theta_idx_lower in
    theta_idx_lower <- int_sub theta_idx_lower 1 ;;
    Some (theta_idx_lower, theta_idx_upper)
  else Some (theta_idx_lower, theta_idx_upper).

Definition interpHighShelfParams (theta rho : R) : option (R * R * R) :=
  let thetaDiv10 := theta / 10 in
  '(theta_idx_lower, theta_idx_upper) <- theta_idx thetaDiv10 ;;
  '(g0_1, gInf_1, fc_1) <- calcHighShelfParams theta_idx_lower rho ;;
  '(g0_2, gInf_2, fc_2) <- calcHighShelfParams theta_idx_upper rho ;;
  let ifac := thetaDiv10 - float_of_int theta_idx_lower in
  Some (interpolate_lin g0_1 g0_2 ifac,
        interpolate_lin gInf_1 gInf_2 ifac,
        interpolate_lin fc_1 fc_2 ifac).

Definition calcIIRCoeffs (g0 gInf fc fs : R) : R * R * R :=
  let v0 := db2mag gInf in
  let g0_mag := db2mag g0 in
  let tanF := tan ((headDim / fs) * fc) in
  let v0tanF := v0 * tanF in
  let a_c := (v0tanF - 1) / (v0tanF + 1) in
  let v := (v0 - 1) * 0.5 in
  let va_c := v * a_c in
  let b0 := g0_mag * (v - va_c + 1) in
  let b1 := g0_mag * (va_c - v + a_c) in
  let a1 := a_c in
  (b0, b1, a1).

Definition convertFrontalDoAToIpsilateral (thetaFront : R) : R * R :=
  let thetaL := Rabs (90 - thetaFront) in
  let thetaL := if Rgt_dec thetaL 180 then 360 - thetaL else thetaL in
  (thetaL, 180 - thetaL).

(** *** The block filter driver and its external collaborator

    [applyIIR] belongs to saf_utility_filters; [applyDVF] only calls it.
    A program is therefore a tree of calls to that routine: running it
    against any implementation gives the result and the list of calls made. *)

Record iir_call : Type := mk_iir_call {
  call_in_signal : list R;
  call_nSamples : Z;
  call_nCoeffs : Z;
  call_b : list R;
  call_a : list R;
  call_wz : list R
}.

(** What a call of [applyIIR] leaves behind: the filter state and the output block. *)
Definition iir_result : Type := (list R * list R)%type.

Inductive ext (A : Type) : Type :=
| Done (a : A)
| Undef
| ApplyIIR (c : iir_call) (k : iir_result -> ext A).

Arguments Done {A} a.
Arguments Undef {A}.
Arguments ApplyIIR {A} c k.

Fixpoint run {A : Type} (applyIIR : iir_call -> iir_result) (p : ext A)
  : option (A * list iir_call) :=
  match p with
  | Done a => Some (a, [])
  | Undef => None
  | ApplyIIR c k =>
      match run applyIIR (k (applyIIR c)) with
      | Some (a, calls) => Some (a, c :: calls)
      | None => None
      end
  end.

(** [arr[i] = v] on a local array. *)
Fixpoint store (arr : list R) (i : nat) (v : R) : list R :=
  match arr, i with
  | [], _ => []
  | _ :: tl, O => v :: tl
  | x :: tl, S j => x :: store tl j v
  end.

Definition applyDVF (theta rho : R) (in_signal : list R) (nSamples : Z)
  (fs : R) (wz : list R) : ext iir_result :=
  let b := [0; 0] in
  let a := [1; 0] in
  match interpHighShelfParams theta rho with
  | None => Undef
  | Some (iG0, iGInf, iFc) =>
      let '(b0, b1, a1) := calcIIRCoeffs iG0 iGInf iFc fs in
      let b := store (store b 0 b0) 1 b1 in
      let a := store a 1 a1 in
      ApplyIIR (mk_iir_call in_signal nSamples 2 b a wz) (fun r => Done r)
  end.

(** ** The arithmetic once more, in IEEE binary32

    The statements below are about the real-number reading.  On the inputs
    that decide them the same lines of the source are also run here with the
    rounding of [float] in place (24 bits of precision, round to nearest
    even), so that they can be evaluated. *)

Module Binary32.

Definition prec : Z := 24.
Definition emax : Z := 128.

Definition float32 : Type := spec_float.

Definition of_int (z : Z) : float32 := binary_normalize prec emax z 0 false.

Definition fadd : float32 -> float32 -> float32 := SFadd prec emax.
Definition fsub : float32 -> float32 -> float32 := SFsub prec emax.
Definition fdiv : float32 -> float32 -> float32 := SFdiv prec emax.

(** [(int)x]: toward zero; undefined for infinities, NaN and values that
    do not fit. *)
Definition to_int (x : float32) : option Z :=
  match x with
  | S754_zero _ => Some 0%Z
  | S754_finite s m e =>
      let a := if (0 <=? e)%Z then (Zpos m * 2 ^ e)%Z else (Zpos m / 2 ^ (- e))%Z in
      let z := if s then (- a)%Z else a in
      if in_int z then Some z else None
  | S754_infinity _ | S754_nan => None
  end.

(** Lines 127 to 138 of the source: the two indices and [ifac]. *)
Definition theta_idx_b32 (theta : float32) : option (Z * Z * float32) :=
  let thetaDiv10 := fdiv theta (of_int 10) in
  theta_idx_lower <- to_int thetaDiv10 ;;
  theta_idx_upper <- int_add theta_idx_lower 1 ;;
  '(theta_idx_lower, theta_idx_upper) <-
    (if (theta_idx_upper =? numAz_table)%Z then
       let theta_idx_upper := theta_idx_lower in
       theta_idx_lower <- int_sub theta_idx_lower 1 ;;
       Some (theta_idx_lower, theta_idx_upper)
     else Some (theta_idx_lower, theta_idx_upper)) ;;
  Some (theta_idx_lower, theta_idx_upper, fsub thetaDiv10 (of_int theta_idx_lower)).

Definition convertFrontalDoAToIpsilateral_b32 (thetaFront : float32)
  : float32 * float32 :=
  let thetaL := SFabs (fsub (of_int 90) thetaFront) in
  let thetaL :=
    if SFltb (of_int 180) thetaL then fsub (of_int 360) thetaL else thetaL in
  (thetaL, fsub (of_int 180) thetaL).







Section Libm.

(** [powf] and [tanf] belong to the C library. *)
Variable powf : float32 -> float32 -> float32.
Variable tanf : float32 -> float32.



End Libm.

End Binary32.

(** ** The specification's side

    [entry t i] is the total reading [t[i]] that the specification's formulas
    use.  [spec_index_pair] is the boundary policy as the specification words
    it (section 4.2, steps 2 and 3): floor, then the collapse when the upper
    index equals the table length, 19. *)

Definition entry (t : list R) (i : Z) : R := nth (Z.to_nat i) t 0.

Definition spec_table_length : Z := 19.

Definition spec_index_pair (thetaDiv10 : R) : Z * Z :=
  let lowerIndex := Int_part thetaDiv10 in
  let upperIndex := (lowerIndex + 1)%Z in
  if (upperIndex =? spec_table_length)%Z
  then ((lowerIndex - 1)%Z, lowerIndex)
  else (lowerIndex, upperIndex).

(** ** Auxiliary facts *)

Lemma Rtrunc_nonneg (x : R) (z : Z) :
  IZR z <= x < IZR z + 1 -> 0 <= x -> Rtrunc x = z.
Proof.
  intros [Hlo Hhi] Hx. unfold Rtrunc.
  destruct (Rle_dec 0 x) as [_ | Hn]; [| contradiction].
  symmetry. apply Int_part_spec. lra.
Qed.

Lemma Rtrunc_neg (x : R) (z : Z) :
  IZR z - 1 < x <= IZR z -> x < 0 -> Rtrunc x = z.
Proof.
  intros [Hlo Hhi] Hx. unfold Rtrunc.
  destruct (Rle_dec 0 x) as [Hp | _]; [lra |].
  destruct (base_Int_part (- x)) as [Hf1 Hf2].
  assert (Hz : (z - 1 < - Int_part (- x) /\ - Int_part (- x) < z + 1)%Z).
  { split; apply lt_IZR; rewrite ?minus_IZR, ?plus_IZR, opp_IZR; lra. }
  lia.
Qed.

(** Below zero the cast rounds up: the truncated value is never positive. *)
Lemma Rtrunc_neg_le (x : R) (z : Z) :
  x <= IZR z -> x < 0 -> (Rtrunc x <= z)%Z.
Proof.
  intros Hhi Hx. unfold Rtrunc.
  destruct (Rle_dec 0 x) as [Hp | _]; [lra |].
  destruct (base_Int_part (- x)) as [Hf1 Hf2].
  assert (Hz : (- Int_part (- x) < z + 1)%Z).
  { apply lt_IZR; rewrite ?plus_IZR, opp_IZR; lra. }
  lia.
Qed.

Lemma Rtrunc_nonneg_ge (x : R) (z : Z) :
  IZR z <= x -> 0 <= x -> (z <= Rtrunc x)%Z.
Proof.
  intros Hlo Hx. unfold Rtrunc.
  destruct (Rle_dec 0 x) as [_ | Hn]; [| contradiction].
  destruct (base_Int_part x) as [Hf1 Hf2].
  assert (Hz : (z < Int_part x + 1)%Z).
  { apply lt_IZR; rewrite ?plus_IZR; lra. }
  lia.
Qed.

Lemma tbl_in_range (t : list R) (i : Z) :
  (0 <= i < Z.of_nat (length t))%Z -> tbl t i = Some (entry t i).
Proof.
  intros Hi. unfold tbl, entry.
  destruct (Z.ltb_spec i 0) as [Hneg | _]; [lia |].
  apply nth_error_nth'. lia.
Qed.

Lemma tbl_out_of_range (t : list R) (i : Z) :
  (i < 0 \/ Z.of_nat (length t) <= i)%Z -> tbl t i = None.
Proof.
  intros Hi. unfold tbl.
  destruct (Z.ltb_spec i 0) as [Hneg | Hpos]; [reflexivity |].
  apply nth_error_None. lia.
Qed.

Lemma numAz_table_value : numAz_table = 76%Z.
Proof. reflexivity. Qed.

Lemma in_int_small (z : Z) : (-1000 <= z <= 1000)%Z -> in_int z = true.
Proof.
  intros Hz. unfold in_int, INT_MIN, INT_MAX.
  apply andb_true_intro; split; apply Z.leb_le; lia.
Qed.

(** Away from [numAz_table - 1] the index pair is the plain one. *)
Lemma theta_idx_plain (x : R) (z : Z) :
  Rtrunc x = z -> (-1000 <= z < 1000)%Z -> (z + 1)%Z <> numAz_table ->
  theta_idx x = Some (z, (z + 1)%Z).
Proof.
  intros Hz Hr Hn. unfold theta_idx, int_of_float, int_add. rewrite Hz.
  rewrite in_int_small by lia. cbn [bind].
  rewrite in_int_small by lia. cbn [bind].
  destruct (Z.eqb_spec (z + 1) numAz_table) as [He | _]; [contradiction | reflexivity].
Qed.

(** Whatever the index pair is, its lower member is at least the truncated
    quotient less one, and its upper member is at most that quotient plus one. *)
Lemma theta_idx_range (x : R) (l u : Z) :
  theta_idx x = Some (l, u) ->
  (Rtrunc x - 1 <= l <= Rtrunc x)%Z /\ (Rtrunc x <= u <= Rtrunc x + 1)%Z.
Proof.
  unfold theta_idx, int_of_float, int_add, int_sub.
  destruct (in_int (Rtrunc x)); cbn [bind]; [| discriminate].
  destruct (in_int (Rtrunc x + 1)); cbn [bind]; [| discriminate].
  destruct (Rtrunc x + 1 =? numAz_table)%Z.
  - destruct (in_int (Rtrunc x - 1)); cbn [bind]; [| discriminate].
    intros [= <- <-]. lia.
  - intros [= <- <-]. lia.
Qed.

(** Side conditions on table lengths: every table has 19 entries. *)
Ltac table_length :=
  unfold p11, p21, q11, q21, p12, p22, q12, q22, p13, p23, p33, q13, q23;
  cbn [length]; lia.

Lemma calcHighShelfParams_in_range (i : Z) (rho : R) :
  (0 <= i <= 18)%Z ->
  calcHighShelfParams i rho =
    Some ((entry p11 i * rho + entry p21 i) / (rho ^ 2 + entry q11 i * rho + entry q21 i),
          (entry p12 i * rho + entry p22 i) / (rho ^ 2 + entry q12 i * rho + entry q22 i),
          (entry p13 i * rho ^ 2 + entry p23 i * rho + entry p33 i)
            / (rho ^ 2 + entry q13 i * rho + entry q23 i) * sosDiv2PiA).
Proof.
  intros Hi. unfold calcHighShelfParams, double_of_float, float_of_double.
  rewrite !tbl_in_range by table_length.
  reflexivity.
Qed.

Lemma calcHighShelfParams_out_of_range (i : Z) (rho : R) :
  (i < 0 \/ 19 <= i)%Z -> calcHighShelfParams i rho = None.
Proof.
  intros Hi. unfold calcHighShelfParams.
  rewrite (tbl_out_of_range p11) by table_length.
  reflexivity.
Qed.

Lemma calcHighShelfParams_defined (i : Z) (rho : R) :
  (0 <= i <= 18)%Z -> exists p, calcHighShelfParams i rho = Some p.
Proof.
  intros Hi. rewrite calcHighShelfParams_in_range by exact Hi. eexists; reflexivity.
Qed.

(** [interpHighShelfParams] once the index pair is known and both reads succeed. *)
Lemma interp_at (theta rho : R) (l u : Z) (g0_1 gInf_1 fc_1 g0_2 gInf_2 fc_2 : R) :
  theta_idx (theta / 10) = Some (l, u) ->
  calcHighShelfParams l rho = Some (g0_1, gInf_1, fc_1) ->
  calcHighShelfParams u rho = Some (g0_2, gInf_2, fc_2) ->
  interpHighShelfParams theta rho =
    Some (interpolate_lin g0_1 g0_2 (theta / 10 - IZR l),
          interpolate_lin gInf_1 gInf_2 (theta / 10 - IZR l),
          interpolate_lin fc_1 fc_2 (theta / 10 - IZR l)).
Proof.
  intros Hidx Hl Hu. unfold interpHighShelfParams, float_of_int.
  rewrite Hidx. cbn [bind]. rewrite Hl. cbn [bind]. rewrite Hu. reflexivity.
Qed.

(** A read outside the table at either index leaves no result. *)
Lemma interp_undefined (theta rho : R) (l u : Z) :
  theta_idx (theta / 10) = Some (l, u) ->
  calcHighShelfParams l rho = None \/ calcHighShelfParams u rho = None ->
  interpHighShelfParams theta rho = None.
Proof.
  intros Hidx H. unfold interpHighShelfParams. rewrite Hidx. cbn [bind].
  destruct (calcHighShelfParams l rho) as [[[a b] c] |]; cbn [bind]; [| reflexivity].
  destruct H as [H | H]; [discriminate | rewrite H; reflexivity].
Qed.

Lemma theta_idx_nominal (theta : R) :
  0 <= theta < 180 ->
  exists l, theta_idx (theta / 10) = Some (l, (l + 1)%Z) /\
            l = Rtrunc (theta / 10) /\ (0 <= l <= 17)%Z /\
            0 <= theta / 10 - IZR l < 1.
Proof.
  intros Ht. set (x := theta / 10).
  assert (Hx : 0 <= x < 18) by (unfold x; lra).
  assert (Hfloor : IZR (Rtrunc x) <= x < IZR (Rtrunc x) + 1).
  { unfold Rtrunc. destruct (Rle_dec 0 x) as [_ | Hn]; [| lra].
    destruct (base_Int_part x). lra. }
  assert (Hz : (0 <= Rtrunc x <= 17)%Z).
  { split; [apply (Rtrunc_nonneg_ge x 0); simpl; lra |].
    assert (H18 : (Rtrunc x < 18)%Z) by (apply lt_IZR; lra). lia. }
  exists (Rtrunc x). repeat split; try lia; try lra.
  apply theta_idx_plain; [reflexivity | lia | rewrite numAz_table_value; lia].
Qed.

(** From 180 up to 190 the test against [numAz_table] does not fire. *)
Lemma theta_idx_180_190 (theta : R) :
  180 <= theta < 190 -> theta_idx (theta / 10) = Some (18, 19)%Z.
Proof.
  intros Ht. apply (theta_idx_plain (theta / 10) 18).
  - apply Rtrunc_nonneg; simpl; lra.
  - lia.
  - rewrite numAz_table_value. lia.
Qed.

Lemma interp_180_190_undefined (theta rho : R) :
  180 <= theta < 190 -> interpHighShelfParams theta rho = None.
Proof.
  intros Ht. apply (interp_undefined theta rho 18 19).
  - apply theta_idx_180_190, Ht.
  - right. apply calcHighShelfParams_out_of_range. lia.
Qed.

(** On the grid below 180 degrees the interpolation factor is zero. *)
Lemma interp_on_grid_below_180 (k : Z) (rho : R) :
  (0 <= k <= 17)%Z ->
  interpHighShelfParams (10 * IZR k) rho = calcHighShelfParams k rho.
Proof.
  intros Hk.
  assert (Hq : 10 * IZR k / 10 = IZR k) by (unfold Rdiv; field).
  assert (Hpos : 0 <= IZR k) by (apply IZR_le; lia).
  assert (Hidx : theta_idx (10 * IZR k / 10) = Some (k, (k + 1)%Z)).
  { apply theta_idx_plain.
    - rewrite Hq. apply Rtrunc_nonneg; lra.
    - lia.
    - rewrite numAz_table_value. lia. }
  destruct (calcHighShelfParams_defined k rho) as [[[a1 b1] c1] H1]; [lia |].
  destruct (calcHighShelfParams_defined (k + 1) rho) as [[[a2 b2] c2] H2]; [lia |].
  rewrite (interp_at _ _ _ _ _ _ _ _ _ _ Hidx H1 H2), H1, Hq.
  unfold interpolate_lin. repeat f_equal; ring.
Qed.

(** The index pair is always two consecutive indices.  The boundary branch
    of the source fires only for a truncated quotient of 75, and the pair it
    yields, (74, 75), is outside every table. *)
Lemma theta_idx_cases (x : R) (l u : Z) :
  theta_idx x = Some (l, u) ->
  u = (l + 1)%Z /\ (l = Rtrunc x \/ (Rtrunc x = 75%Z /\ l = 74%Z)).
Proof.
  unfold theta_idx, int_of_float, int_add, int_sub.
  destruct (in_int (Rtrunc x)); cbn [bind]; [| discriminate].
  destruct (in_int (Rtrunc x + 1)); cbn [bind]; [| discriminate].
  destruct (Z.eqb_spec (Rtrunc x + 1) numAz_table) as [He | Hne].
  - rewrite numAz_table_value in He.
    destruct (in_int (Rtrunc x - 1)); cbn [bind]; [| discriminate].
    intros [= Hl Hu]. split; [lia |]. right. lia.
  - intros [= Hl Hu]. split; [lia |]. left. lia.
Qed.

(** The same inputs under binary32 rounding: the pair at 180, at the
    largest [float] below 180, at 200, at -5 and at the grid point 40. *)
Example binary32_theta_idx :
  Binary32.theta_idx_b32 (Binary32.of_int 180) = Some (18, 19, S754_zero false)%Z /\
  Binary32.theta_idx_b32 (SFpred Binary32.prec Binary32.emax (Binary32.of_int 180))
    = Some (17, 18, S754_finite false 16777184 (-24))%Z /\
  Binary32.theta_idx_b32 (Binary32.of_int 200) = Some (20, 21, S754_zero false)%Z /\
  Binary32.theta_idx_b32 (Binary32.of_int (-5))
    = Some (0, 1, S754_finite true 8388608 (-24))%Z /\
  Binary32.theta_idx_b32 (Binary32.of_int 40) = Some (4, 5, S754_zero false)%Z.
Proof. repeat split; vm_compute; reflexivity. Qed.

(** The remapper under binary32 rounding: the three reference points, a
    folded input, and the sum at 89.9f, where the subtraction rounds. *)
Example binary32_convertFrontalDoAToIpsilateral :
  Binary32.convertFrontalDoAToIpsilateral_b32 (Binary32.of_int 90)
    = (S754_zero false, Binary32.of_int 180) /\
  Binary32.convertFrontalDoAToIpsilateral_b32 (Binary32.of_int 0)
    = (Binary32.of_int 90, Binary32.of_int 90) /\
  Binary32.convertFrontalDoAToIpsilateral_b32 (Binary32.of_int (-90))
    = (Binary32.of_int 180, S754_zero false) /\
  Binary32.convertFrontalDoAToIpsilateral_b32 (Binary32.of_int (-135))
    = (Binary32.of_int 135, Binary32.of_int 45) /\
  (let '(thetaL, thetaR) :=
     Binary32.convertFrontalDoAToIpsilateral_b32 (S754_finite false 11783373 (-17)) in
   Binary32.fadd thetaL thetaR = Binary32.of_int 180).
Proof. repeat split; vm_compute; reflexivity. Qed.

Lemma interp_below_zero_defined (theta rho : R) :
  -10 < theta < 0 -> exists p, interpHighShelfParams theta rho = Some p.
Proof.
  intros Ht.
  assert (Hidx : theta_idx (theta / 10) = Some (0, 1)%Z).
  { apply (theta_idx_plain (theta / 10) 0).
    - apply Rtrunc_neg; simpl; lra.
    - lia.
    - rewrite numAz_table_value. lia. }
  destruct (calcHighShelfParams_defined 0 rho) as [[[a1 b1] c1] H1]; [lia |].
  destruct (calcHighShelfParams_defined 1 rho) as [[[a2 b2] c2] H2]; [lia |].
  eexists. exact (interp_at _ _ _ _ _ _ _ _ _ _ Hidx H1 H2).
Qed.

Lemma interp_low_undefined (theta rho : R) :
  theta <= -10 -> interpHighShelfParams theta rho = None.
Proof.
  intros Ht.
  destruct (theta_idx (theta / 10)) as [[l u] |] eqn:Hidx.
  - apply (interp_undefined theta rho l u Hidx).
    destruct (theta_idx_range _ _ _ Hidx) as [Hl Hu].
    left. apply calcHighShelfParams_out_of_range. left.
    assert (Hz : (Rtrunc (theta / 10) <= -1)%Z)
      by (apply Rtrunc_neg_le; simpl; lra).
    lia.
  - unfold interpHighShelfParams. rewrite Hidx. reflexivity.
Qed.

Lemma interp_high_undefined (theta rho : R) :
  180 <= theta -> interpHighShelfParams theta rho = None.
Proof.
  intros Ht.
  destruct (Rlt_dec theta 190) as [Hlt | Hge];
    [apply interp_180_190_undefined; lra |].
  destruct (theta_idx (theta / 10)) as [[l u] |] eqn:Hidx.
  - apply (interp_undefined theta rho l u Hidx).
    destruct (theta_idx_range _ _ _ Hidx) as [Hl Hu].
    right. apply calcHighShelfParams_out_of_range. right.
    assert (Hz : (19 <= Rtrunc (theta / 10))%Z)
      by (apply Rtrunc_nonneg_ge; simpl; lra).
    lia.
  - unfold interpHighShelfParams. rewrite Hidx. reflexivity.
Qed.

Lemma interp_nominal_defined (theta rho : R) :
  0 <= theta < 180 -> exists p, interpHighShelfParams theta rho = Some p.
Proof.
  intros Ht.
  destruct (theta_idx_nominal theta Ht) as (l & Hidx & _ & Hrange & _).
  destruct (calcHighShelfParams_defined l rho) as [[[a1 b1] c1] H1]; [lia |].
  destruct (calcHighShelfParams_defined (l + 1) rho) as [[[a2 b2] c2] H2]; [lia |].
  eexists. exact (interp_at _ _ _ _ _ _ _ _ _ _ Hidx H1 H2).
Qed.

(** The domain of [interpHighShelfParams], in one statement. *)
Lemma interp_domain (theta rho : R) :
  interpHighShelfParams theta rho <> None <-> -10 < theta < 180.
Proof.
  split.
  - intros Hdef.
    destruct (Rle_dec theta (-10)) as [Hlow | Hlow];
      [elim Hdef; apply interp_low_undefined, Hlow |].
    destruct (Rle_dec 180 theta) as [Hhigh | Hhigh];
      [elim Hdef; apply interp_high_undefined, Hhigh |].
    lra.
  - intros Ht.
    destruct (Rlt_dec theta 0) as [Hneg | Hpos].
    + destruct (interp_below_zero_defined theta rho) as [p Hp]; [lra |].
      rewrite Hp. discriminate.
    + destruct (interp_nominal_defined theta rho) as [p Hp]; [lra |].
      rewrite Hp. discriminate.
Qed.

(** Inside the cell of table index [k] the index pair is [(k, k + 1)]. *)
Lemma theta_idx_cell (k : Z) (theta : R) :
  (0 <= k <= 17)%Z -> 10 * IZR k <= theta < 10 * (IZR k + 1) ->
  theta_idx (theta / 10) = Some (k, (k + 1)%Z).
Proof.
  intros Hk Ht.
  assert (Hpos : 0 <= IZR k) by (apply IZR_le; lia).
  apply theta_idx_plain.
  - apply Rtrunc_nonneg; lra.
  - lia.
  - rewrite numAz_table_value. lia.
Qed.

Lemma interp_none_iff (theta rho : R) :
  interpHighShelfParams theta rho = None <-> theta <= -10 \/ 180 <= theta.
Proof.
  split.
  - intros Hnone.
    destruct (Rle_dec theta (-10)) as [Hlow | Hlow]; [left; exact Hlow |].
    destruct (Rle_dec 180 theta) as [Hhigh | Hhigh]; [right; exact Hhigh |].
    exfalso. apply (proj2 (interp_domain theta rho)); [lra | exact Hnone].
  - intros [Hlow | Hhigh];
      [apply interp_low_undefined, Hlow | apply interp_high_undefined, Hhigh].
Qed.

Lemma interpolate_lin_between (a b t : R) :
  0 <= t <= 1 -> Rmin a b <= interpolate_lin a b t <= Rmax a b.
Proof.
  intros Ht. unfold interpolate_lin, Rmin, Rmax.
  destruct (Rle_dec a b) as [Hab | Hab]; split; nra.
Qed.

(** Reading a table at a literal index. *)
Ltac table_entries :=
  unfold entry;
  repeat match goal with
         | |- context [Z.to_nat ?z] =>
             let n := eval vm_compute in (Z.to_nat z) in
             change (Z.to_nat z) with n
         end;
  unfold p11, p21, q11, q21, p12, p22, q12, q22, p13, p23, p33, q13, q23;
  cbn [nth].

(** From rho = 2 on, none of the three denominators of Eqs. (8), (13) and
    (14) vanishes, at any table index. *)
Lemma denominators_positive (i : Z) (rho : R) :
  (0 <= i <= 18)%Z -> 2 <= rho ->
  0 < rho ^ 2 + entry q11 i * rho + entry q21 i /\
  0 < rho ^ 2 + entry q12 i * rho + entry q22 i /\
  0 < rho ^ 2 + entry q13 i * rho + entry q23 i.
Proof.
  intros Hi Hrho.
  replace (rho ^ 2) with (rho * rho) by ring.
  assert (Hsq : 4 * rho - 4 <= rho * rho) by nra.
  assert (Hcases : (i = 0 \/ i = 1 \/ i = 2 \/ i = 3 \/ i = 4 \/ i = 5 \/ i = 6
                    \/ i = 7 \/ i = 8 \/ i = 9 \/ i = 10 \/ i = 11 \/ i = 12
                    \/ i = 13 \/ i = 14 \/ i = 15 \/ i = 16 \/ i = 17
                    \/ i = 18)%Z) by lia.
  repeat (destruct Hcases as [-> | Hcases]); [.. | subst i];
    table_entries; repeat split; lra.
Qed.

(** ** Properties stated by the specification *)

(** C2.  For every table index [i] in [0,18] and every normalized distance
    [rho > 0], [calcHighShelfParams] returns
    g0 = (p11[i]*rho + p21[i]) / (rho^2 + q11[i]*rho + q21[i]),
    gInf = (p12[i]*rho + p22[i]) / (rho^2 + q12[i]*rho + q22[i]) and
    fc = ((p13[i]*rho^2 + p23[i]*rho + p33[i]) / (rho^2 + q13[i]*rho + q23[i]))
         * (343 / (2*pi*0.09096)). *)
Theorem calcHighShelfParams_formula (i : Z) (rho : R) :
  (0 <= i <= 18)%Z -> 0 < rho ->
  calcHighShelfParams i rho =
    Some ((entry p11 i * rho + entry p21 i)
            / (rho * rho + entry q11 i * rho + entry q21 i),
          (entry p12 i * rho + entry p22 i)
            / (rho * rho + entry q12 i * rho + entry q22 i),
          (entry p13 i * (rho * rho) + entry p23 i * rho + entry p33 i)
            / (rho * rho + entry q13 i * rho + entry q23 i)
            * (343 / (2 * PI * 0.09096))).
Proof.
  intros Hi _. rewrite calcHighShelfParams_in_range by exact Hi.
  unfold sosDiv2PiA, SAF_PI, a_head.
  replace (rho ^ 2) with (rho * rho) by ring.
  reflexivity.
Qed.

Lemma calcHighShelfParams_formula_witness :
  calcHighShelfParams 4 2 =
    Some ((entry p11 4 * 2 + entry p21 4) / (2 * 2 + entry q11 4 * 2 + entry q21 4),
          (entry p12 4 * 2 + entry p22 4) / (2 * 2 + entry q12 4 * 2 + entry q22 4),
          (entry p13 4 * (2 * 2) + entry p23 4 * 2 + entry p33 4)
            / (2 * 2 + entry q13 4 * 2 + entry q23 4)
            * (343 / (2 * PI * 0.09096))).
Proof. apply (calcHighShelfParams_formula 4 2); [lia | lra]. Defined.

(** C9.  For every [theta] in the nominal range [0, 180) and every [rho],
    all table accesses of [interpHighShelfParams] are in bounds: the lower
    index trunc(theta/10) lies in [0, 17], the upper index in [1, 18], and the
    interpolation factor thetaDiv10 - lowerIndex lies in [0, 1); the function
    returns a triple. *)
Theorem interp_nominal_in_bounds (theta rho : R) :
  0 <= theta < 180 ->
  exists (l u : Z) (p : R * R * R),
    theta_idx (theta / 10) = Some (l, u) /\
    l = Rtrunc (theta / 10) /\ u = (l + 1)%Z /\
    (0 <= l <= 17)%Z /\ (1 <= u <= 18)%Z /\
    0 <= theta / 10 - float_of_int l < 1 /\
    calcHighShelfParams l rho <> None /\
    calcHighShelfParams u rho <> None /\
    interpHighShelfParams theta rho = Some p.
Proof.
  intros Ht.
  destruct (theta_idx_nominal theta Ht) as (l & Hidx & Hl & Hrange & Hfac).
  destruct (calcHighShelfParams_defined l rho) as [[[a1 b1] c1] H1]; [lia |].
  destruct (calcHighShelfParams_defined (l + 1) rho) as [[[a2 b2] c2] H2]; [lia |].
  exists l, (l + 1)%Z. eexists.
  repeat split; try exact Hidx; try exact Hl; try lia;
    try (unfold float_of_int; lra); try (rewrite ?H1, ?H2; discriminate).
  exact (interp_at _ _ _ _ _ _ _ _ _ _ Hidx H1 H2).
Qed.

Lemma interp_nominal_in_bounds_witness :
  exists (l u : Z) (p : R * R * R),
    theta_idx (45 / 10) = Some (l, u) /\
    l = Rtrunc (45 / 10) /\ u = (l + 1)%Z /\
    (0 <= l <= 17)%Z /\ (1 <= u <= 18)%Z /\
    0 <= 45 / 10 - float_of_int l < 1 /\
    calcHighShelfParams l 2 <> None /\
    calcHighShelfParams u 2 <> None /\
    interpHighShelfParams 45 2 = Some p.
Proof. apply (interp_nominal_in_bounds 45 2). lra. Defined.

(** C1.  At theta = 180, where upperIndex = trunc(theta/10) + 1 is 19, the
    specification collapses the index pair to (17, 18).  The code does not:
    [numAz_table] is [sizeof(q23)] = 76 and not the 19 entries of the table,
    the test [theta_idx_upper == numAz_table] is false, the pair stays
    (18, 19), and the read at index 19 is outside the table. *)
Theorem boundary_collapse_missed :
  numAz_table = 76%Z /\
  Z.of_nat (length q23) = 19%Z /\
  spec_index_pair (180 / 10) = (17, 18)%Z /\
  theta_idx (180 / 10) = Some (18, 19)%Z /\
  forall rho : R, calcHighShelfParams 19 rho = None /\
                  interpHighShelfParams 180 rho = None.
Proof.
  split; [reflexivity |]. split; [reflexivity |].
  split.
  { unfold spec_index_pair.
    replace (Int_part (180 / 10)) with 18%Z; [reflexivity |].
    apply Int_part_spec. simpl. lra. }
  split; [apply theta_idx_180_190; lra |].
  intros rho. split.
  - apply calcHighShelfParams_out_of_range. lia.
  - apply interp_180_190_undefined. lra.
Qed.

(** C5.  On the grid point theta = 180 (table index 18) the code does not
    return [calcHighShelfParams 18 rho]: that triple is defined, but
    [interpHighShelfParams] reads index 19 and has no result.  With the index
    pair of the specification, (17, 18), the factor would be 1 and the
    interpolation would return the entry at 18. *)
Theorem interp_on_grid_at_180 (rho : R) :
  (exists p, calcHighShelfParams 18 rho = Some p) /\
  interpHighShelfParams (10 * 18) rho = None /\
  interpHighShelfParams (10 * 18) rho <> calcHighShelfParams 18 rho /\
  spec_index_pair (10 * 18 / 10) = (17, 18)%Z /\
  forall a b : R, interpolate_lin a b (10 * 18 / 10 - float_of_int 17) = b.
Proof.
  assert (Hnone : interpHighShelfParams (10 * 18) rho = None)
    by (apply interp_180_190_undefined; lra).
  destruct (calcHighShelfParams_defined 18 rho) as [p Hp]; [lia |].
  split; [exists p; exact Hp |]. split; [exact Hnone |].
  split; [rewrite Hnone, Hp; discriminate |].
  split.
  - unfold spec_index_pair.
    replace (Int_part (10 * 18 / 10)) with 18%Z; [reflexivity |].
    apply Int_part_spec. simpl. lra.
  - intros a b. unfold interpolate_lin, float_of_int. simpl. field.
Qed.

(** C8 as stated fails: at theta = 200, outside [0, 180], the index pair is
    (20, 21), both outside the table, and the function has no result. *)
Lemma interp_out_of_range_counterexample :
  180 < 200 /\
  theta_idx (200 / 10) = Some (20, 21)%Z /\
  calcHighShelfParams 20 1 = None /\
  interpHighShelfParams 200 1 = None.
Proof.
  assert (Hidx : theta_idx (200 / 10) = Some (20, 21)%Z).
  { apply (theta_idx_plain (200 / 10) 20).
    - apply Rtrunc_nonneg; simpl; lra.
    - lia.
    - rewrite numAz_table_value. lia. }
  assert (Hcalc : calcHighShelfParams 20 1 = None)
    by (apply calcHighShelfParams_out_of_range; lia).
  split; [lra |]. split; [exact Hidx |]. split; [exact Hcalc |].
  apply (interp_undefined 200 1 20 21 Hidx). left. exact Hcalc.
Qed.

(** C8, amended.  [interpHighShelfParams] checks no range.  For theta in
    (-10, 0) the cast rounds toward zero, the index pair is (0, 1), and the
    result is the triple extrapolated from those two entries with a factor
    theta/10 in (-1, 0).  For theta <= -10 or theta >= 190 a table read falls
    outside [0, 18] (or the index does not fit an [int]) and the function
    has no result. *)
Theorem interp_out_of_range (theta rho : R) :
  theta < 0 \/ 190 <= theta ->
  (-10 < theta < 0 /\
   theta_idx (theta / 10) = Some (0, 1)%Z /\
   -1 < theta / 10 - float_of_int 0 < 0 /\
   exists g0_1 gInf_1 fc_1 g0_2 gInf_2 fc_2,
     calcHighShelfParams 0 rho = Some (g0_1, gInf_1, fc_1) /\
     calcHighShelfParams 1 rho = Some (g0_2, gInf_2, fc_2) /\
     interpHighShelfParams theta rho =
       Some (interpolate_lin g0_1 g0_2 (theta / 10),
             interpolate_lin gInf_1 gInf_2 (theta / 10),
             interpolate_lin fc_1 fc_2 (theta / 10)))
  \/
  ((theta <= -10 \/ 190 <= theta) /\ interpHighShelfParams theta rho = None).
Proof.
  intros Hout.
  destruct (Rlt_dec (-10) theta) as [Hnear | Hfar];
    [destruct (Rlt_dec theta 0) as [Hneg | Hpos] |].
  - left. split; [lra |].
    assert (Hidx : theta_idx (theta / 10) = Some (0, 1)%Z).
    { apply (theta_idx_plain (theta / 10) 0).
      - apply Rtrunc_neg; simpl; lra.
      - lia.
      - rewrite numAz_table_value. lia. }
    split; [exact Hidx |]. split; [unfold float_of_int; simpl; lra |].
    destruct (calcHighShelfParams_defined 0 rho) as [[[a1 b1] c1] H1]; [lia |].
    destruct (calcHighShelfParams_defined 1 rho) as [[[a2 b2] c2] H2]; [lia |].
    exists a1, b1, c1, a2, b2, c2. split; [exact H1 |]. split; [exact H2 |].
    rewrite (interp_at _ _ _ _ _ _ _ _ _ _ Hidx H1 H2).
    replace (theta / 10 - 0) with (theta / 10) by ring. reflexivity.
  - right. split; [lra |].
    destruct (theta_idx (theta / 10)) as [[l u] |] eqn:Hidx.
    + apply (interp_undefined theta rho l u Hidx).
      destruct (theta_idx_range _ _ _ Hidx) as [Hl Hu].
      right. apply calcHighShelfParams_out_of_range. right.
      assert (Hz : (19 <= Rtrunc (theta / 10))%Z)
        by (apply Rtrunc_nonneg_ge; simpl; lra).
      lia.
    + unfold interpHighShelfParams. rewrite Hidx. reflexivity.
  - right. split; [lra |].
    destruct (theta_idx (theta / 10)) as [[l u] |] eqn:Hidx.
    + apply (interp_undefined theta rho l u Hidx).
      destruct (theta_idx_range _ _ _ Hidx) as [Hl Hu].
      left. apply calcHighShelfParams_out_of_range. left.
      assert (Hz : (Rtrunc (theta / 10) <= -1)%Z)
        by (apply Rtrunc_neg_le; simpl; lra).
      lia.
    + unfold interpHighShelfParams. rewrite Hidx. reflexivity.
Qed.

Lemma interp_out_of_range_witness :
  (-10 < -20 < 0 /\
   theta_idx (-20 / 10) = Some (0, 1)%Z /\
   -1 < -20 / 10 - float_of_int 0 < 0 /\
   exists g0_1 gInf_1 fc_1 g0_2 gInf_2 fc_2,
     calcHighShelfParams 0 2 = Some (g0_1, gInf_1, fc_1) /\
     calcHighShelfParams 1 2 = Some (g0_2, gInf_2, fc_2) /\
     interpHighShelfParams (-20) 2 =
       Some (interpolate_lin g0_1 g0_2 (-20 / 10),
             interpolate_lin gInf_1 gInf_2 (-20 / 10),
             interpolate_lin fc_1 fc_2 (-20 / 10)))
  \/
  ((-20 <= -10 \/ 190 <= -20) /\ interpHighShelfParams (-20) 2 = None).
Proof. apply (interp_out_of_range (-20) 2). left. lra. Defined.

(** C3.  For all inputs, [calcIIRCoeffs] returns the coefficients given by
    V0 = 10^(gInfDb/20), G0 = 10^(g0Db/20),
    tanTerm = tan((pi * 0.0875/0.09096) * fcHz / sampleRateHz),
    a1 = (V0*tanTerm - 1)/(V0*tanTerm + 1), v = (V0 - 1)/2,
    b0 = G0*(v - v*a1 + 1), b1 = G0*(v*a1 - v + a1). *)
Theorem calcIIRCoeffs_formula (g0Db gInfDb fcHz sampleRateHz : R) :
  let V0 := Rpower 10 (gInfDb / 20) in
  let G0 := Rpower 10 (g0Db / 20) in
  let tanTerm := tan ((PI * 0.0875 / 0.09096) * fcHz / sampleRateHz) in
  let a1 := (V0 * tanTerm - 1) / (V0 * tanTerm + 1) in
  let v := (V0 - 1) / 2 in
  calcIIRCoeffs g0Db gInfDb fcHz sampleRateHz =
    (G0 * (v - v * a1 + 1), G0 * (v * a1 - v + a1), a1).
Proof.
  intros V0 G0 tanTerm a1 v.
  unfold calcIIRCoeffs, db2mag, headDim, SAF_PI, a_0, a_head.
  fold V0 G0.
  replace (PI * (0.0875 / 0.09096) / sampleRateHz * fcHz)
    with (PI * 0.0875 / 0.09096 * fcHz / sampleRateHz)
    by (unfold Rdiv; ring).
  fold tanTerm. fold a1.
  replace ((V0 - 1) * 0.5) with v by (unfold v; lra).
  reflexivity.
Qed.

(** C6 as stated fails.  With both gains 0 dB and a cutoff of 0 Hz the
    coefficients are (1, -1, -1): neither [b1] nor [a1] is zero.  With both
    gains 20 dB they are (100, -100, -1): [b0] is not 10^(20/20) = 10. *)
Lemma flat_shelf_counterexample :
  calcIIRCoeffs 0 0 0 48000 = (1, -1, -1) /\
  calcIIRCoeffs 20 20 0 48000 = (100, -100, -1) /\
  Rpower 10 (20 / 20) = 10.
Proof.
  assert (H0 : Rpower 10 (0 / 20) = 1).
  { replace (0 / 20) with 0 by lra. apply Rpower_O. lra. }
  assert (H1 : Rpower 10 (20 / 20) = 10).
  { replace (20 / 20) with 1 by lra. apply Rpower_1. lra. }
  assert (Ht : tan (headDim / 48000 * 0) = 0).
  { replace (headDim / 48000 * 0) with 0 by ring. apply tan_0. }
  split; [| split; [| exact H1]];
    unfold calcIIRCoeffs, db2mag; rewrite ?H0, ?H1, Ht;
    repeat f_equal; lra.
Qed.

(** C6, amended.  When the high-frequency gain is 0 dB (V0 = 1, the flat
    shelf) [calcIIRCoeffs] gives b0 = 10^(g0Db/20) and b1 = b0 * a1: the
    numerator is the denominator (1, a1) scaled by b0, so the filter is the
    pure gain b0.  [a1] itself is (tanTerm - 1)/(tanTerm + 1). *)
Theorem flat_shelf_pure_gain (g0Db fcHz sampleRateHz : R) :
  let tanTerm := tan ((headDim / sampleRateHz) * fcHz) in
  let a1 := (tanTerm - 1) / (tanTerm + 1) in
  let b0 := Rpower 10 (g0Db / 20) in
  calcIIRCoeffs g0Db 0 fcHz sampleRateHz = (b0, b0 * a1, a1).
Proof.
  intros tanTerm a1 b0.
  assert (H0 : Rpower 10 (0 / 20) = 1).
  { replace (0 / 20) with 0 by lra. apply Rpower_O. lra. }
  unfold calcIIRCoeffs, db2mag. rewrite H0. fold tanTerm b0.
  replace (1 * tanTerm) with tanTerm by ring. fold a1.
  repeat f_equal; ring.
Qed.




(** C7.  [convertFrontalDoAToIpsilateral] maps 90 to (0, 180), 0 to (90, 90)
    and -90 to (180, 0); for every thetaFront in (-180, 180] it returns
    thetaL = |90 - thetaFront|, folded to 360 - thetaL when thetaL > 180,
    with thetaR = 180 - thetaL, and the two azimuths sum to 180. *)
Theorem convertFrontalDoAToIpsilateral_sum (thetaFront : R) :
  -180 < thetaFront <= 180 ->
  convertFrontalDoAToIpsilateral 90 = (0, 180) /\
  convertFrontalDoAToIpsilateral 0 = (90, 90) /\
  convertFrontalDoAToIpsilateral (-90) = (180, 0) /\
  (let thetaL := Rabs (90 - thetaFront) in
   let thetaL := if Rgt_dec thetaL 180 then 360 - thetaL else thetaL in
   convertFrontalDoAToIpsilateral thetaFront = (thetaL, 180 - thetaL)) /\
  fst (convertFrontalDoAToIpsilateral thetaFront)
    + snd (convertFrontalDoAToIpsilateral thetaFront) = 180.
Proof.
  intros _.
  assert (Hpt : forall t l, Rabs (90 - t) = l -> l <= 180 ->
            convertFrontalDoAToIpsilateral t = (l, 180 - l)).
  { intros t l Hl Hle. unfold convertFrontalDoAToIpsilateral. rewrite Hl.
    destruct (Rgt_dec l 180) as [Hgt | _]; [lra | reflexivity]. }
  split; [| split; [| split; [| split]]].
  - rewrite (Hpt 90 0); [f_equal; lra | | lra].
    replace (90 - 90) with 0 by ring. apply Rabs_R0.
  - rewrite (Hpt 0 90); [f_equal; lra | | lra].
    replace (90 - 0) with 90 by ring. apply Rabs_pos_eq. lra.
  - rewrite (Hpt (-90) 180); [f_equal; lra | | lra].
    replace (90 - -90) with 180 by ring. apply Rabs_pos_eq. lra.
  - reflexivity.
  - unfold convertFrontalDoAToIpsilateral. cbn [fst snd]. ring.
Qed.

Lemma convertFrontalDoAToIpsilateral_sum_witness :
  convertFrontalDoAToIpsilateral 90 = (0, 180) /\
  convertFrontalDoAToIpsilateral 0 = (90, 90) /\
  convertFrontalDoAToIpsilateral (-90) = (180, 0) /\
  (let thetaL := Rabs (90 - -135) in
   let thetaL := if Rgt_dec thetaL 180 then 360 - thetaL else thetaL in
   convertFrontalDoAToIpsilateral (-135) = (thetaL, 180 - thetaL)) /\
  fst (convertFrontalDoAToIpsilateral (-135))
    + snd (convertFrontalDoAToIpsilateral (-135)) = 180.
Proof. apply (convertFrontalDoAToIpsilateral_sum (-135)). lra. Defined.

(** What [applyDVF] does against any implementation of [applyIIR]: nothing
    where [interpHighShelfParams] has no result, one call otherwise. *)
Lemma applyDVF_run (applyIIR : iir_call -> iir_result)
    (theta rho : R) (in_signal : list R) (nSamples : Z) (fs : R) (wz : list R) :
  run applyIIR (applyDVF theta rho in_signal nSamples fs wz) =
    match interpHighShelfParams theta rho with
    | None => None
    | Some (iG0, iGInf, iFc) =>
        let '(b0, b1, a1) := calcIIRCoeffs iG0 iGInf iFc fs in
        let call := mk_iir_call in_signal nSamples 2 [b0; b1] [1; a1] wz in
        Some (applyIIR call, [call])
    end.
Proof.
  unfold applyDVF.
  destruct (interpHighShelfParams theta rho) as [[[iG0 iGInf] iFc] |];
    [| reflexivity].
  destruct (calcIIRCoeffs iG0 iGInf iFc fs) as [[b0 b1] a1].
  reflexivity.
Qed.

(** C4 as stated fails: at theta = 200 [interpHighShelfParams] reads table
    index 20 and has no result, so [applyDVF] never reaches [applyIIR],
    whatever the block, the sample rate and the filter state. *)
Lemma applyDVF_out_of_range_counterexample :
  180 < 200 /\
  interpHighShelfParams 200 1 = None /\
  forall (applyIIR : iir_call -> iir_result) (in_signal : list R)
         (nSamples : Z) (fs : R) (wz : list R),
    run applyIIR (applyDVF 200 1 in_signal nSamples fs wz) = None.
Proof.
  assert (Hnone : interpHighShelfParams 200 1 = None)
    by (apply interp_high_undefined; lra).
  split; [lra |]. split; [exact Hnone |].
  intros applyIIR in_signal nSamples fs wz.
  rewrite applyDVF_run, Hnone. reflexivity.
Qed.

(** C4, amended.  For every theta in (-10, 180), where
    [interpHighShelfParams] has a result, [applyDVF] is the composition of
    the other components: one triple from [interpHighShelfParams], one from
    [calcIIRCoeffs], then exactly one call of the external [applyIIR] over
    the whole block with 2 coefficients, numerator (b0, b1), denominator
    (1, a1) and the caller's filter state as it was passed in; its result is
    what that call leaves.  [applyDVF] checks no range: for theta <= -10 or
    theta >= 190 a table read is out of bounds before [applyIIR] is called,
    and no call is made. *)
Theorem applyDVF_single_call (applyIIR : iir_call -> iir_result)
    (theta rho : R) (in_signal : list R) (nSamples : Z) (fs : R) (wz : list R) :
  theta < 180 \/ 190 <= theta ->
  (-10 < theta < 180 /\
   exists iG0 iGInf iFc b0 b1 a1,
     interpHighShelfParams theta rho = Some (iG0, iGInf, iFc) /\
     calcIIRCoeffs iG0 iGInf iFc fs = (b0, b1, a1) /\
     run applyIIR (applyDVF theta rho in_signal nSamples fs wz) =
       Some (applyIIR (mk_iir_call in_signal nSamples 2 [b0; b1] [1; a1] wz),
             [mk_iir_call in_signal nSamples 2 [b0; b1] [1; a1] wz]))
  \/
  ((theta <= -10 \/ 190 <= theta) /\
   run applyIIR (applyDVF theta rho in_signal nSamples fs wz) = None).
Proof.
  intros Hrange. rewrite applyDVF_run.
  destruct (Rle_dec theta (-10)) as [Hlow | Hlow].
  - right. split; [left; exact Hlow |].
    rewrite interp_low_undefined by exact Hlow. reflexivity.
  - destruct (Rle_dec 190 theta) as [Hhigh | Hhigh].
    + right. split; [right; exact Hhigh |].
      rewrite interp_high_undefined by lra. reflexivity.
    + left. split; [lra |].
      destruct (interpHighShelfParams theta rho) as [[[iG0 iGInf] iFc] |] eqn:Hi.
      * destruct (calcIIRCoeffs iG0 iGInf iFc fs) as [[b0 b1] a1] eqn:Hc.
        exists iG0, iGInf, iFc, b0, b1, a1.
        split; [reflexivity |]. split; [exact Hc | reflexivity].
      * exfalso. apply (proj2 (interp_domain theta rho)); [lra | exact Hi].
Qed.

Lemma applyDVF_single_call_witness :
  (-10 < 45 < 180 /\
   exists iG0 iGInf iFc b0 b1 a1,
     interpHighShelfParams 45 2 = Some (iG0, iGInf, iFc) /\
     calcIIRCoeffs iG0 iGInf iFc 48000 = (b0, b1, a1) /\
     run (fun c => (call_wz c, call_in_signal c)) (applyDVF 45 2 [1; 0] 2 48000 [0; 0]) =
       Some ((fun c => (call_wz c, call_in_signal c))
               (mk_iir_call [1; 0] 2 2 [b0; b1] [1; a1] [0; 0]),
             [mk_iir_call [1; 0] 2 2 [b0; b1] [1; a1] [0; 0]]))
  \/
  ((45 <= -10 \/ 190 <= 45) /\
   run (fun c => (call_wz c, call_in_signal c)) (applyDVF 45 2 [1; 0] 2 48000 [0; 0]) = None).
Proof.
  apply (applyDVF_single_call (fun c => (call_wz c, call_in_signal c))
           45 2 [1; 0] 2 48000 [0; 0]).
  left. lra.
Defined.

(** ** Further properties of the code *)

(** *** The shelf parameter generator and the interpolator *)

(** X1.  [interpHighShelfParams] has a result exactly for theta in the open
    interval (-10, 180), whatever the distance: above -10 the cast still
    truncates to index 0, and from 180 on index 19 or more is read.  The
    upper end of the documented range [0, 180] is not part of the domain. *)
Theorem interpHighShelfParams_domain (theta rho : R) :
  (exists p, interpHighShelfParams theta rho = Some p) <-> -10 < theta < 180.
Proof.
  rewrite <- (interp_domain theta rho). split.
  - intros [p Hp]. rewrite Hp. discriminate.
  - destruct (interpHighShelfParams theta rho) as [p |];
      [intros _; exists p; reflexivity | intros H; elim H; reflexivity].
Qed.

(** X2.  [calcHighShelfParams] has a result exactly for the table indices
    0 to 18, whatever the distance; any other index reads outside the
    tables. *)
Theorem calcHighShelfParams_domain (i : Z) (rho : R) :
  (exists p, calcHighShelfParams i rho = Some p) <-> (0 <= i <= 18)%Z.
Proof.
  split.
  - intros [p Hp].
    destruct (Z_lt_le_dec i 0) as [Hneg | Hpos];
      [rewrite calcHighShelfParams_out_of_range in Hp by lia; discriminate |].
    destruct (Z_lt_le_dec 18 i) as [Hbig | Hsmall];
      [rewrite calcHighShelfParams_out_of_range in Hp by lia; discriminate |].
    lia.
  - apply calcHighShelfParams_defined.
Qed.

(** X3.  The boundary branch of [interpHighShelfParams] never produces a
    usable index pair: whenever both indices lie inside the tables, they are
    the truncated quotient and its successor, so the branch was not taken. *)
Theorem boundary_branch_never_in_table (thetaDiv10 : R) (l u : Z) :
  theta_idx thetaDiv10 = Some (l, u) ->
  (0 <= l <= 18)%Z -> (0 <= u <= 18)%Z ->
  l = Rtrunc thetaDiv10 /\ u = (l + 1)%Z.
Proof.
  intros Hidx Hl Hu.
  destruct (theta_idx_cases _ _ _ Hidx) as [Hsucc [Hplain | [_ H74]]].
  - split; assumption.
  - lia.
Qed.

Lemma boundary_branch_never_in_table_witness :
  (4 = Rtrunc (45 / 10) /\ 5 = 4 + 1)%Z.
Proof.
  apply (boundary_branch_never_in_table (45 / 10) 4 5); [| lia | lia].
  apply (theta_idx_cell 4 45); [lia | simpl; lra].
Defined.

(** X4.  On [0, 180) [interpHighShelfParams] is piecewise linear with knots
    on the 10 degree grid: over the whole closed cell of a table index [k]
    (right end included, as long as it is below 180) each parameter is
    the line through the values at [k] and [k + 1].  Both neighbouring cells
    therefore give the same value at an interior grid point: no jump. *)
Theorem interp_piecewise_linear (k : Z) (theta rho : R) :
  (0 <= k <= 17)%Z -> 10 * IZR k <= theta <= 10 * (IZR k + 1) -> theta < 180 ->
  exists g0_1 gInf_1 fc_1 g0_2 gInf_2 fc_2,
    calcHighShelfParams k rho = Some (g0_1, gInf_1, fc_1) /\
    calcHighShelfParams (k + 1) rho = Some (g0_2, gInf_2, fc_2) /\
    interpHighShelfParams theta rho =
      Some (interpolate_lin g0_1 g0_2 (theta / 10 - IZR k),
            interpolate_lin gInf_1 gInf_2 (theta / 10 - IZR k),
            interpolate_lin fc_1 fc_2 (theta / 10 - IZR k)).
Proof.
  intros Hk [Hlo Hhi] H180.
  destruct (calcHighShelfParams_defined k rho) as [[[a1 b1] c1] H1]; [lia |].
  destruct (calcHighShelfParams_defined (k + 1) rho) as [[[a2 b2] c2] H2]; [lia |].
  exists a1, b1, c1, a2, b2, c2. split; [exact H1 |]. split; [exact H2 |].
  destruct (Rlt_dec theta (10 * (IZR k + 1))) as [Hin | Hend].
  - apply (interp_at theta rho k (k + 1)); [| exact H1 | exact H2].
    apply theta_idx_cell; [exact Hk | lra].
  - assert (Heq : theta = 10 * IZR (k + 1)) by (rewrite plus_IZR; lra).
    assert (Hk16 : (k + 1 <= 17)%Z).
    { assert (Hlt : (k + 1 < 18)%Z) by (apply lt_IZR; lra). lia. }
    rewrite Heq, interp_on_grid_below_180, H2 by lia.
    unfold interpolate_lin. rewrite plus_IZR.
    repeat f_equal; field.
Qed.

Lemma interp_piecewise_linear_witness :
  exists g0_1 gInf_1 fc_1 g0_2 gInf_2 fc_2,
    calcHighShelfParams 4 2 = Some (g0_1, gInf_1, fc_1) /\
    calcHighShelfParams (4 + 1) 2 = Some (g0_2, gInf_2, fc_2) /\
    interpHighShelfParams 50 2 =
      Some (interpolate_lin g0_1 g0_2 (50 / 10 - IZR 4),
            interpolate_lin gInf_1 gInf_2 (50 / 10 - IZR 4),
            interpolate_lin fc_1 fc_2 (50 / 10 - IZR 4)).
Proof. apply (interp_piecewise_linear 4 50 2); [lia | simpl; lra | lra]. Defined.

(** X5.  On [0, 180) the interpolation never overshoots: each returned
    parameter lies between the values [calcHighShelfParams] gives at the two
    bracketing table indices, trunc(theta/10) and its successor. *)
Theorem interp_between_neighbours (theta rho : R) :
  0 <= theta < 180 ->
  exists (l : Z) g0_1 gInf_1 fc_1 g0_2 gInf_2 fc_2 iG0 iGInf iFc,
    l = Rtrunc (theta / 10) /\
    calcHighShelfParams l rho = Some (g0_1, gInf_1, fc_1) /\
    calcHighShelfParams (l + 1) rho = Some (g0_2, gInf_2, fc_2) /\
    interpHighShelfParams theta rho = Some (iG0, iGInf, iFc) /\
    Rmin g0_1 g0_2 <= iG0 <= Rmax g0_1 g0_2 /\
    Rmin gInf_1 gInf_2 <= iGInf <= Rmax gInf_1 gInf_2 /\
    Rmin fc_1 fc_2 <= iFc <= Rmax fc_1 fc_2.
Proof.
  intros Ht.
  destruct (theta_idx_nominal theta Ht) as (l & Hidx & Hl & Hrange & Hfac).
  destruct (calcHighShelfParams_defined l rho) as [[[a1 b1] c1] H1]; [lia |].
  destruct (calcHighShelfParams_defined (l + 1) rho) as [[[a2 b2] c2] H2]; [lia |].
  exists l, a1, b1, c1, a2, b2, c2.
  do 3 eexists.
  split; [exact Hl |]. split; [exact H1 |]. split; [exact H2 |].
  split; [exact (interp_at _ _ _ _ _ _ _ _ _ _ Hidx H1 H2) |].
  repeat split; apply interpolate_lin_between; lra.
Qed.

Lemma interp_between_neighbours_witness :
  exists (l : Z) g0_1 gInf_1 fc_1 g0_2 gInf_2 fc_2 iG0 iGInf iFc,
    l = Rtrunc (45 / 10) /\
    calcHighShelfParams l 2 = Some (g0_1, gInf_1, fc_1) /\
    calcHighShelfParams (l + 1) 2 = Some (g0_2, gInf_2, fc_2) /\
    interpHighShelfParams 45 2 = Some (iG0, iGInf, iFc) /\
    Rmin g0_1 g0_2 <= iG0 <= Rmax g0_1 g0_2 /\
    Rmin gInf_1 gInf_2 <= iGInf <= Rmax gInf_1 gInf_2 /\
    Rmin fc_1 fc_2 <= iFc <= Rmax fc_1 fc_2.
Proof. apply (interp_between_neighbours 45 2). lra. Defined.

(** *** The azimuth remapper *)

(** X6.  Both azimuths returned by [convertFrontalDoAToIpsilateral] lie in
    [0, 180] exactly when thetaFront lies in [-270, 450]: the single fold at
    180 covers one turn around the documented range, and beyond it the left
    azimuth is negative. *)
Theorem convertFrontalDoAToIpsilateral_range (thetaFront : R) :
  (0 <= fst (convertFrontalDoAToIpsilateral thetaFront) <= 180 /\
   0 <= snd (convertFrontalDoAToIpsilateral thetaFront) <= 180)
  <-> -270 <= thetaFront <= 450.
Proof.
  unfold convertFrontalDoAToIpsilateral, Rabs.
  destruct (Rcase_abs (90 - thetaFront)) as [Hneg | Hpos];
    match goal with |- context [Rgt_dec ?x 180] =>
      destruct (Rgt_dec x 180) as [Hgt | Hle] end;
    cbn [fst snd]; split; intros H; lra.
Qed.

(** X7.  Front-back symmetry: a source at thetaFront and its mirror image
    behind the interaural axis, at 180 - thetaFront, get the same pair of
    ipsilateral azimuths. *)
Theorem convertFrontalDoAToIpsilateral_front_back (thetaFront : R) :
  convertFrontalDoAToIpsilateral (180 - thetaFront)
  = convertFrontalDoAToIpsilateral thetaFront.
Proof.
  unfold convertFrontalDoAToIpsilateral.
  replace (90 - (180 - thetaFront)) with (- (90 - thetaFront)) by ring.
  rewrite Rabs_Ropp. reflexivity.
Qed.

(** X8.  Left-right symmetry: for thetaFront in [-270, 270], mirroring the
    source across the median plane, thetaFront to -thetaFront, swaps the two
    returned azimuths. *)
Theorem convertFrontalDoAToIpsilateral_mirror (thetaFront : R) :
  -270 <= thetaFront <= 270 ->
  convertFrontalDoAToIpsilateral (- thetaFront)
  = (snd (convertFrontalDoAToIpsilateral thetaFront),
     fst (convertFrontalDoAToIpsilateral thetaFront)).
Proof.
  intros Ht. unfold convertFrontalDoAToIpsilateral, Rabs.
  destruct (Rcase_abs (90 - - thetaFront)) as [Hn1 | Hp1];
    destruct (Rcase_abs (90 - thetaFront)) as [Hn2 | Hp2];
    repeat match goal with |- context [Rgt_dec ?x 180] =>
      destruct (Rgt_dec x 180) end;
    cbn [fst snd]; f_equal; lra.
Qed.

Lemma convertFrontalDoAToIpsilateral_mirror_witness :
  convertFrontalDoAToIpsilateral (- 135)
  = (snd (convertFrontalDoAToIpsilateral 135),
     fst (convertFrontalDoAToIpsilateral 135)).
Proof. apply (convertFrontalDoAToIpsilateral_mirror 135). lra. Defined.

(** X9.  The remapper feeds the interpolator.  For thetaFront in
    (-180, 180] the left-ear azimuth is in the domain of
    [interpHighShelfParams] whenever thetaFront is at least 0.001 degrees
    away from -90, and the right-ear azimuth whenever it is at least 0.001
    degrees away from 90.  At thetaFront = -90 the left-ear azimuth, and at
    thetaFront = 90 the right-ear azimuth, is 180 and has no result: a
    source on the interaural axis leaves the far ear without one. *)
Theorem remapped_azimuths_interpolate (thetaFront rho : R) :
  -180 < thetaFront <= 180 ->
  ((exists p, interpHighShelfParams
                (fst (convertFrontalDoAToIpsilateral thetaFront)) rho = Some p)
   \/ Rabs (thetaFront + 90) < 0.001) /\
  ((exists p, interpHighShelfParams
                (snd (convertFrontalDoAToIpsilateral thetaFront)) rho = Some p)
   \/ Rabs (thetaFront - 90) < 0.001) /\
  snd (convertFrontalDoAToIpsilateral 90) = 180 /\
  fst (convertFrontalDoAToIpsilateral (-90)) = 180 /\
  interpHighShelfParams (snd (convertFrontalDoAToIpsilateral 90)) rho = None /\
  interpHighShelfParams (fst (convertFrontalDoAToIpsilateral (-90))) rho = None.
Proof.
  intros Ht.
  assert (Hdef : forall x, 0 <= x < 180 ->
            exists p, interpHighShelfParams x rho = Some p).
  { intros x Hx. destruct (interpHighShelfParams x rho) as [p |] eqn:Hp;
      [exists p; reflexivity |].
    exfalso. apply (proj2 (interp_domain x rho)); [lra | exact Hp]. }
  assert (H90 : convertFrontalDoAToIpsilateral 90 = (0, 180)).
  { unfold convertFrontalDoAToIpsilateral.
    replace (90 - 90) with 0 by ring. rewrite Rabs_R0.
    destruct (Rgt_dec 0 180); [lra | f_equal; lra]. }
  assert (Hm90 : convertFrontalDoAToIpsilateral (-90) = (180, 0)).
  { unfold convertFrontalDoAToIpsilateral.
    replace (90 - -90) with 180 by ring. rewrite Rabs_pos_eq by lra.
    destruct (Rgt_dec 180 180); [lra | f_equal; lra]. }
  split; [| split; [| rewrite H90, Hm90; cbn [fst snd];
                      repeat split; try reflexivity;
                      apply interp_high_undefined; lra]].
  - destruct (Req_dec thetaFront (-90)) as [-> | Hne].
    + right. replace (-90 + 90) with 0 by ring. rewrite Rabs_R0. lra.
    + left. apply Hdef.
      unfold convertFrontalDoAToIpsilateral, Rabs.
      destruct (Rcase_abs (90 - thetaFront)) as [Hneg | Hpos];
        match goal with |- context [Rgt_dec ?x 180] =>
          destruct (Rgt_dec x 180) as [Hgt | Hle] end;
        cbn [fst]; lra.
  - destruct (Req_dec thetaFront 90) as [-> | Hne].
    + right. replace (90 - 90) with 0 by ring. rewrite Rabs_R0. lra.
    + left. apply Hdef.
      unfold convertFrontalDoAToIpsilateral, Rabs.
      destruct (Rcase_abs (90 - thetaFront)) as [Hneg | Hpos];
        match goal with |- context [Rgt_dec ?x 180] =>
          destruct (Rgt_dec x 180) as [Hgt | Hle] end;
        cbn [snd]; lra.
Qed.

Lemma remapped_azimuths_interpolate_witness :
  ((exists p, interpHighShelfParams
                (fst (convertFrontalDoAToIpsilateral 30)) 2 = Some p)
   \/ Rabs (30 + 90) < 0.001) /\
  ((exists p, interpHighShelfParams
                (snd (convertFrontalDoAToIpsilateral 30)) 2 = Some p)
   \/ Rabs (30 - 90) < 0.001) /\
  snd (convertFrontalDoAToIpsilateral 90) = 180 /\
  fst (convertFrontalDoAToIpsilateral (-90)) = 180 /\
  interpHighShelfParams (snd (convertFrontalDoAToIpsilateral 90)) 2 = None /\
  interpHighShelfParams (fst (convertFrontalDoAToIpsilateral (-90))) 2 = None.
Proof. apply (remapped_azimuths_interpolate 30 2). lra. Defined.

(** *** Divisions in the shelf parameter generator *)

(** X13.  For every table index and every distance rho >= 2 the three
    divisions of [calcHighShelfParams] are by a positive number, so the
    returned parameters satisfy Eqs. (8), (13) and (14) multiplied out. *)
Theorem calcHighShelfParams_quotients (i : Z) (rho : R) :
  (0 <= i <= 18)%Z -> 2 <= rho ->
  exists g0 gInf fc,
    calcHighShelfParams i rho = Some (g0, gInf, fc) /\
    0 < rho ^ 2 + entry q11 i * rho + entry q21 i /\
    0 < rho ^ 2 + entry q12 i * rho + entry q22 i /\
    0 < rho ^ 2 + entry q13 i * rho + entry q23 i /\
    g0 * (rho ^ 2 + entry q11 i * rho + entry q21 i)
      = entry p11 i * rho + entry p21 i /\
    gInf * (rho ^ 2 + entry q12 i * rho + entry q22 i)
      = entry p12 i * rho + entry p22 i /\
    fc * (rho ^ 2 + entry q13 i * rho + entry q23 i)
      = (entry p13 i * rho ^ 2 + entry p23 i * rho + entry p33 i) * sosDiv2PiA.
Proof.
  intros Hi Hrho.
  destruct (denominators_positive i rho Hi Hrho) as (H1 & H2 & H3).
  rewrite calcHighShelfParams_in_range by exact Hi.
  do 3 eexists. split; [reflexivity |].
  split; [exact H1 |]. split; [exact H2 |]. split; [exact H3 |].
  set (d1 := rho ^ 2 + entry q11 i * rho + entry q21 i) in *.
  set (d2 := rho ^ 2 + entry q12 i * rho + entry q22 i) in *.
  set (d3 := rho ^ 2 + entry q13 i * rho + entry q23 i) in *.
  repeat split; field; lra.
Qed.

Lemma calcHighShelfParams_quotients_witness :
  exists g0 gInf fc,
    calcHighShelfParams 12 2 = Some (g0, gInf, fc) /\
    0 < 2 ^ 2 + entry q11 12 * 2 + entry q21 12 /\
    0 < 2 ^ 2 + entry q12 12 * 2 + entry q22 12 /\
    0 < 2 ^ 2 + entry q13 12 * 2 + entry q23 12 /\
    g0 * (2 ^ 2 + entry q11 12 * 2 + entry q21 12)
      = entry p11 12 * 2 + entry p21 12 /\
    gInf * (2 ^ 2 + entry q12 12 * 2 + entry q22 12)
      = entry p12 12 * 2 + entry p22 12 /\
    fc * (2 ^ 2 + entry q13 12 * 2 + entry q23 12)
      = (entry p13 12 * 2 ^ 2 + entry p23 12 * 2 + entry p33 12) * sosDiv2PiA.
Proof. apply (calcHighShelfParams_quotients 12 2); [lia | lra]. Defined.

(** X14.  Below rho = 2 a pole does lie inside the documented range
    rho >= 1.  At table index 12 (120 degrees) the high-frequency gain
    returned by [calcHighShelfParams] is at most -6 for every rho in
    [1.9, 1.95] and at least 5 for every rho in [1.961, 1.962]; in between
    the denominator of Eq. (13) has a zero at which the numerator is at
    least 0.02. *)
Theorem calcHighShelfParams_pole_near_index_12 (rho : R) :
  exists g0 gInf fc,
    calcHighShelfParams 12 rho = Some (g0, gInf, fc) /\
    (1.9 <= rho <= 1.95 -> gInf <= -6) /\
    (1.961 <= rho <= 1.962 -> 5 <= gInf) /\
    exists rho0, 1.95 < rho0 < 1.961 /\
      rho0 ^ 2 + entry q12 12 * rho0 + entry q22 12 = 0 /\
      0.02 <= entry p12 12 * rho0 + entry p22 12.
Proof.
  rewrite calcHighShelfParams_in_range by lia.
  do 3 eexists. split; [reflexivity |].
  table_entries.
  replace (rho ^ 2) with (rho * rho) by ring.
  split; [| split].
  - intros Hr.
    assert (Hd : rho * rho + -2.01 * rho + 0.098 < 0) by nra.
    assert (Hy : / (rho * rho + -2.01 * rho + 0.098) < 0)
      by (apply Rinv_lt_0_compat; exact Hd).
    assert (Hdy : (rho * rho + -2.01 * rho + 0.098)
                  * / (rho * rho + -2.01 * rho + 0.098) = 1)
      by (apply Rinv_r; lra).
    assert (Hn : 0 <= (-11.1 * rho + 21.8)
                      + 6 * (rho * rho + -2.01 * rho + 0.098)) by nra.
    unfold Rdiv.
    set (d := rho * rho + -2.01 * rho + 0.098) in *.
    set (y := / d) in *. nra.
  - intros Hr.
    assert (Hd : 0 < rho * rho + -2.01 * rho + 0.098) by nra.
    assert (Hy : 0 < / (rho * rho + -2.01 * rho + 0.098))
      by (apply Rinv_0_lt_compat; exact Hd).
    assert (Hdy : (rho * rho + -2.01 * rho + 0.098)
                  * / (rho * rho + -2.01 * rho + 0.098) = 1)
      by (apply Rinv_r; lra).
    assert (Hn : 0 <= (-11.1 * rho + 21.8)
                      - 5 * (rho * rho + -2.01 * rho + 0.098)) by nra.
    unfold Rdiv.
    set (d := rho * rho + -2.01 * rho + 0.098) in *.
    set (y := / d) in *. nra.
  - exists 1.96. split; [lra |]. split; [simpl; lra | lra].
Qed.

(** *** The block filter driver *)

(** X15.  Against any implementation of [applyIIR], [applyDVF] reaches its
    call, exactly one, precisely for theta in (-10, 180); for any other
    azimuth it is undefined before the filter routine is called, and the
    block, the filter state and the sample rate play no part in that. *)
Theorem applyDVF_domain (applyIIR : iir_call -> iir_result)
    (theta rho : R) (in_signal : list R) (nSamples : Z) (fs : R) (wz : list R) :
  (exists call,
     run applyIIR (applyDVF theta rho in_signal nSamples fs wz)
       = Some (applyIIR call, [call]))
  <-> -10 < theta < 180.
Proof.
  rewrite <- (interp_domain theta rho). unfold applyDVF.
  destruct (interpHighShelfParams theta rho) as [[[iG0 iGInf] iFc] |].
  - destruct (calcIIRCoeffs iG0 iGInf iFc fs) as [[b0 b1] a1].
    split; [intros _; discriminate |].
    intros _. eexists. reflexivity.
  - split; [intros [call Hrun]; discriminate | intros H; elim H; reflexivity].
Qed.



(** X17.  The two azimuths returned by [convertFrontalDoAToIpsilateral] are
    the angles between the source and the two ends of the interaural axis:
    for every thetaFront, in degrees, cos(thetaL) = sin(thetaFront) and
    cos(thetaR) = - sin(thetaFront); the fold at 180 does not change that. *)
Theorem convertFrontalDoAToIpsilateral_direction_cosines (thetaFront : R) :
  let '(thetaL, thetaR) := convertFrontalDoAToIpsilateral thetaFront in
  cos (thetaL * (PI / 180)) = sin (thetaFront * (PI / 180)) /\
  cos (thetaR * (PI / 180)) = - sin (thetaFront * (PI / 180)).
Proof.
  unfold convertFrontalDoAToIpsilateral.
  set (x := thetaFront * (PI / 180)).
  assert (Habs : cos (Rabs (90 - thetaFront) * (PI / 180)) = sin x).
  { rewrite <- (cos_shift x). unfold Rabs.
    destruct (Rcase_abs (90 - thetaFront)) as [Hneg | Hpos].
    - rewrite <- (cos_neg (PI / 2 - x)). f_equal. unfold x. field.
    - f_equal. unfold x. field. }
  assert (Hleft : cos ((if Rgt_dec (Rabs (90 - thetaFront)) 180
                        then 360 - Rabs (90 - thetaFront)
                        else Rabs (90 - thetaFront)) * (PI / 180)) = sin x).
  { destruct (Rgt_dec (Rabs (90 - thetaFront)) 180) as [Hgt | Hle];
      [| exact Habs].
    replace ((360 - Rabs (90 - thetaFront)) * (PI / 180))
      with (2 * PI - Rabs (90 - thetaFront) * (PI / 180)) by field.
    rewrite cos_minus, cos_2PI, sin_2PI, Habs. ring. }
  split; [exact Hleft |].
  match goal with |- cos ((180 - ?l) * _) = _ =>
    replace ((180 - l) * (PI / 180)) with (PI - l * (PI / 180)) by field
  end.
  rewrite cos_minus, cos_PI, sin_PI, Hleft. ring.
Qed.

End DVF.
